(** * tune2youtube: cover geometry, rounding and ffmpeg command composition

    A shallow embedding of [tune2youtube.py].

    - A Python exception is a value of the error monad [res].
    - Python's [float] is the interface [PyFloat], with two instances: the
      exact rationals [Q], over which the general theorems are proved, and
      IEEE binary64 (the primitive floats), on which every concrete run is
      evaluated again.  An [int] operand of a mixed operation is converted
      with [of_int], as Python does.  The two instances agree on the sizes of
      pictures; [binary64_beyond_exact_range] shows where they part.
    - [/] is the true division of Python 3.  Under Python 2 the quotient of
      two ints is floored instead; [offset_floor_agrees] shows that the
      offsets are the same whenever the picture is not larger than the canvas.
    - ffprobe and ffmpeg are parameters: the list of streams that ffprobe
      reports for a file, and the exit status of ffmpeg on an argument list. *)

From Stdlib Require Import ZArith QArith Qabs Qround Bool List String Ascii.
From Stdlib Require Import Lia Lqa DecimalString Floats.
Import ListNotations.

Local Open Scope string_scope.
Local Open Scope Z_scope.

(** ** Exceptions *)

Inductive exn : Set :=
| ZeroDivisionError   (* x / 0 *)
| AssertionError      (* a failed [assert] *)
| IndexError          (* ["streams"][0] of an empty list *)
| OverflowError       (* int(inf) *)
| ValueError          (* int(nan) *)
| CalledProcessError. (* subprocess.check_call, non-zero exit *)

Inductive res (A : Type) : Type :=
| Ok (a : A)
| Raise (e : exn).

Arguments Ok {A} a.
Arguments Raise {A} e.

Definition bind {A B : Type} (c : res A) (k : A -> res B) : res B :=
  match c with
  | Ok a => k a
  | Raise e => Raise e
  end.

Notation "x <- c ;; k" := (bind c (fun x => k))
  (at level 61, c at next level, right associativity).

(** [assert b] *)
Definition assert (b : bool) : res unit :=
  if b then Ok tt else Raise AssertionError.

(** ** Python floats *)

Class PyFloat (F : Type) : Type := {
  of_int : Z -> F;            (* float(n), and the int operand of a mixed operation *)
  fdiv : F -> F -> res F;     (* x / y *)
  fmul : F -> F -> F;         (* x * y *)
  fsub : F -> F -> F;         (* x - y *)
  fabs : F -> F;              (* abs(x) *)
  fltb : F -> F -> bool;      (* x < y *)
  fleb : F -> F -> bool;      (* x <= y *)
  to_int : F -> res Z         (* int(x): truncation toward zero *)
}.

(** Exact arithmetic. *)
Definition Qtrunc (q : Q) : Z := Z.quot (Qnum q) (Zpos (Qden q)).

Definition Qltb (x y : Q) : bool := negb (Qle_bool y x).

#[export] Instance Q_PyFloat : PyFloat Q := {
  of_int := inject_Z;
  fdiv x y := if Qeq_bool y 0 then Raise ZeroDivisionError else Ok (x / y)%Q;
  fmul := Qmult;
  fsub := Qminus;
  fabs := Qabs;
  fltb := Qltb;
  fleb := Qle_bool;
  to_int x := Ok (Qtrunc x)
}.

(** IEEE binary64. *)
Module Binary64.

(** [float(n)], rounded to nearest.  Python raises OverflowError beyond the
    largest float, where this conversion gives an infinity. *)
Definition of_Z (z : Z) : float :=
  SF2Prim (binary_normalize prec emax z 0 false).

(** [int(x)] *)
Definition trunc (x : float) : res Z :=
  match Prim2SF x with
  | S754_zero _ => Ok 0
  | S754_finite s m e =>
      let a := if 0 <=? e then Z.shiftl (Zpos m) e else Z.shiftr (Zpos m) (- e) in
      Ok (if s then - a else a)
  | S754_infinity _ => Raise OverflowError
  | S754_nan => Raise ValueError
  end.

(** [x / y]; both zeros raise. *)
Definition div (x y : float) : res float :=
  if PrimFloat.eqb y PrimFloat.zero then Raise ZeroDivisionError
  else Ok (PrimFloat.div x y).

End Binary64.

#[export] Instance float_PyFloat : PyFloat float := {
  of_int := Binary64.of_Z;
  fdiv := Binary64.div;
  fmul := PrimFloat.mul;
  fsub := PrimFloat.sub;
  fabs := PrimFloat.abs;
  fltb := PrimFloat.ltb;
  fleb := PrimFloat.leb;
  to_int := Binary64.trunc
}.

(** ** scaling_round *)

Section Rounding.

Context {F : Type} `{PyFloat F}.

(** [scaling_round(val, factor=16, max_value=0)] *)
Definition scaling_round (val : F) (factor max_value : Z) : res Z :=
  q <- fdiv val (of_int factor) ;;
  vsc <- to_int q ;;
  let vmin := vsc * factor in
  let vmax := (vsc + 1) * factor in
  if (negb (max_value =? 0) && (vmax >? max_value))
     || fltb (fabs (fsub val (of_int vmin))) (fabs (fsub val (of_int vmax)))
  then Ok vmin
  else Ok vmax.

End Rounding.

(** ** get_cover_filter_string *)

(** The four numbers written into the filter string. *)
Record FitResult : Set := {
  scaled_width : Z;
  scaled_height : Z;
  offset_x : Z;
  offset_y : Z
}.

(** One entry of ffprobe's ["streams"] list. *)
Record stream_info : Set := {
  width : Z;
  height : Z
}.

(** ["%d" % n] *)
Definition fmt_d (n : Z) : string := NilZero.string_of_int (Z.to_int n).

(** Lines 91-96: the scale stage, then the pad stage. *)
Definition filter_string (video_width video_height : Z) (fit : FitResult) : string :=
  let scale_filter :=
    "scale=" ++ fmt_d (scaled_width fit) ++ ":" ++ fmt_d (scaled_height fit) in
  let pad_filter :=
    "pad=" ++ fmt_d video_width ++ ":" ++ fmt_d video_height ++ ":"
      ++ fmt_d (offset_x fit) ++ ":" ++ fmt_d (offset_y fit) in
  scale_filter ++ "," ++ pad_filter.

Section Geometry.

Context {F : Type} `{PyFloat F}.

(** Lines 78-85: the fitted size before the assertions and the rounding,
    as the pair [(image_width, image_height)]. *)
Definition cover_fit (cover_width cover_height : F) (video_width video_height : Z)
  : res (F * F) :=
  cover_aspect <- fdiv cover_width cover_height ;;
  video_aspect <- fdiv (of_int video_width) (of_int video_height) ;;
  if fleb cover_height cover_width && fltb video_aspect cover_aspect then
    let image_width := of_int video_width in
    image_height <- fdiv image_width cover_aspect ;;
    Ok (image_width, image_height)
  else
    let image_height := of_int video_height in
    let image_width := fmul image_height cover_aspect in
    Ok (image_width, image_height).

(** Lines 86-95: the two assertions, the rounding and the offsets.  The
    offsets are [(video - image) / 2] printed with [%d]: a true division
    whose result [%d] truncates toward zero. *)
Definition cover_layout (cover_width cover_height : F) (video_width video_height : Z)
  : res FitResult :=
  fitted <- cover_fit cover_width cover_height video_width video_height ;;
  let '(image_width, image_height) := fitted in
  _ <- assert (fleb image_height (of_int video_height)) ;;
  _ <- assert (fleb image_width (of_int video_width)) ;;
  image_width <- scaling_round image_width 16 0 ;;
  image_height <- scaling_round image_height 16 0 ;;
  Ok {| scaled_width := image_width;
        scaled_height := image_height;
        offset_x := Z.quot (video_width - image_width) 2;
        offset_y := Z.quot (video_height - image_height) 2 |}.

(** Lines 78-96 on the probed size. *)
Definition cover_filter (cover_width cover_height : F) (video_width video_height : Z)
  : res string :=
  fit <- cover_layout cover_width cover_height video_width video_height ;;
  Ok (filter_string video_width video_height fit).

(** [probe_file] runs ffprobe; here it is the list of streams ffprobe reports. *)
Variable probe_file : string -> list stream_info.

Definition get_cover_filter_string (cover_filename : string) (video_width video_height : Z)
  : res string :=
  match probe_file cover_filename with
  | [] => Raise IndexError
  | cover_stream_info :: _ =>
      let cover_width := of_int (width cover_stream_info) in
      let cover_height := of_int (height cover_stream_info) in
      cover_filter cover_width cover_height video_width video_height
  end.

End Geometry.

(** ** Strings and os.path

    [str.endswith], [str.rfind], slices, and [os.path.basename] and
    [os.path.splitext] of the POSIX flavour, as CPython defines them. *)

(** [s[:n]] and [s[n:]] for [n >= 0] *)
Fixpoint take (n : nat) (s : string) : string :=
  match n, s with
  | O, _ => ""
  | S _, "" => ""
  | S n', String c r => String c (take n' r)
  end.

Fixpoint drop (n : nat) (s : string) : string :=
  match n, s with
  | O, _ => s
  | S _, "" => ""
  | S n', String _ r => drop n' r
  end.

(** [s.rfind(c)] for a one-character [c]: the last index of [c], or -1. *)
Fixpoint rfind (c : ascii) (s : string) : Z :=
  match s with
  | "" => -1
  | String d r =>
      let i := rfind c r in
      if 0 <=? i then i + 1 else if Ascii.eqb d c then 0 else -1
  end.

(** [s.endswith(suffix)] *)
Definition endswith (s suffix : string) : bool :=
  (String.length suffix <=? String.length s)%nat
  && String.eqb (drop (String.length s - String.length suffix) s) suffix.

(** [os.path.basename(p)]: [i = p.rfind('/') + 1; return p[i:]] *)
Definition basename (p : string) : string :=
  let i := rfind "/" p + 1 in
  drop (Z.to_nat i) p.

(** The loop of [genericpath._splitext]: some character of the name before
    its last dot is not a dot. *)
Fixpoint has_non_dot (s : string) : bool :=
  match s with
  | "" => false
  | String c r => negb (Ascii.eqb c ".") || has_non_dot r
  end.

(** [os.path.splitext(p)] *)
Definition splitext (p : string) : string * string :=
  let sepIndex := rfind "/" p in
  let dotIndex := rfind "." p in
  if sepIndex <? dotIndex then
    let filenameIndex := sepIndex + 1 in
    if has_non_dot (take (Z.to_nat (dotIndex - filenameIndex))
                         (drop (Z.to_nat filenameIndex) p))
    then (take (Z.to_nat dotIndex) p, drop (Z.to_nat dotIndex) p)
    else (p, "")
  else (p, "").

(** ** process *)

Section Process.

Context {F : Type} `{PyFloat F}.

(** The environment variable of line 14, when it is set. *)
Variable FFMPEG_PATH_env : option string.

(** Lines 14-16; [os.sep] is ["/"]. *)
Definition FFMPEG_PATH : string :=
  match FFMPEG_PATH_env with
  | None | Some "" => ""
  | Some path => path ++ "/"
  end.

Variable probe_file : string -> list stream_info.

(** [subprocess.check_call(ffmpeg_args, shell=NEED_SHELL)]: [true] when ffmpeg
    exits with status 0. *)
Variable check_call : list string -> bool.

(** Lines 111-113; [not output_path] holds of [None] and of the empty string. *)
Definition resolve_output_path (audio_path : string) (output_path : option string)
  : string :=
  match output_path with
  | None | Some "" =>
      let audio_basename := fst (splitext (basename audio_path)) in
      audio_basename ++ ".mp4"
  | Some path => path
  end.

(** Lines 115-145: the argument list handed to ffmpeg. *)
Definition ffmpeg_command (cover_path audio_path output_path : string)
  (width height : Z) : res (list string) :=
  filter_string <- get_cover_filter_string probe_file cover_path width height ;;
  let ffmpeg_args :=
    [ FFMPEG_PATH ++ "ffmpeg";
      "-loop"; "1";
      "-i"; cover_path;
      "-i"; audio_path;
      "-r:v"; "10";
      "-s:v"; fmt_d width ++ "x" ++ fmt_d height;
      "-c:v"; "libx264";
      "-crf:v"; "22";
      "-filter:v"; filter_string;
      "-pix_fmt"; "yuv420p" ] in
  let needs_transcode := negb (endswith audio_path ".mp3") in
  let ffmpeg_args :=
    if needs_transcode
    then (ffmpeg_args ++ ["-c:a"; "aac"; "-strict"; "experimental"; "-b:a"; "320k"])%list
    else (ffmpeg_args ++ ["-c:a"; "copy"])%list in
  let ffmpeg_args := (ffmpeg_args ++ ["-shortest"; output_path])%list in
  Ok ffmpeg_args.

(** [process(cover_path, audio_path, output_path=None, width=1280, height=720)] *)
Definition process (cover_path audio_path : string) (output_path : option string)
  (width height : Z) : res string :=
  let output_path := resolve_output_path audio_path output_path in
  ffmpeg_args <- ffmpeg_command cover_path audio_path output_path width height ;;
  if check_call ffmpeg_args then Ok output_path else Raise CalledProcessError.

End Process.

(** ** unwrap_args *)

(** The values argparse puts into a namespace. *)
#[warnings="-register-all"]
Inductive pyval : Set :=
| PyNone
| PyStr (s : string)
| PyInt (n : Z)
| PyList (items : list pyval).

(** A [dict]: the items in insertion order, each key once. *)
Definition dict : Set := list (string * pyval).

(** [d[key] = value] *)
Fixpoint dict_set (d : dict) (key : string) (value : pyval) : dict :=
  match d with
  | [] => [(key, value)]
  | (k, v) :: rest =>
      if String.eqb k key then (k, value) :: rest
      else (k, v) :: dict_set rest key value
  end.

(** [d.get(key)] *)
Fixpoint dict_get (d : dict) (key : string) : option pyval :=
  match d with
  | [] => None
  | (k, v) :: rest => if String.eqb k key then Some v else dict_get rest key
  end.

(** The loop of lines 158-161 over the items that are left. *)
Fixpoint unwrap_items (items : list (string * pyval)) (args_dict : dict) : res dict :=
  match items with
  | [] => Ok args_dict
  | (key, value) :: rest =>
      value <- match value with
               | PyList [] => Raise IndexError
               | PyList (first :: _) => Ok first
               | _ => Ok value
               end ;;
      unwrap_items rest (dict_set args_dict key value)
  end.

(** [unwrap_args(args_ns)], on the items of [vars(args_ns)]. *)
Definition unwrap_args (args_ns : dict) : res dict := unwrap_items args_ns [].

(** ** Vocabulary of the statements *)

(** The two multiples of [g] that bracket [v], as the specification names
    them: [floor(v/g)*g] and the next one. *)
Definition lower_bracket (v : Q) (g : Z) : Z := Qfloor (v / inject_Z g) * g.


(** The covers that fail the width assertion: portrait, and wider in
    proportion than the canvas. *)
Definition portrait_wider_than_canvas (cw ch : Q) (vw vh : Z) : Prop :=
  (cw < ch /\ inject_Z vw * ch < cw * inject_Z vh)%Q.



(** [c] occurs in [s]. *)
Fixpoint occurs (c : ascii) (s : string) : bool :=
  match s with
  | "" => false
  | String d r => Ascii.eqb d c || occurs c r
  end.

(** The two audio option lists of lines 133-141. *)
Definition stream_copy : list string := ["-c:a"; "copy"].

Definition transcode_aac_320k : list string :=
  ["-c:a"; "aac"; "-strict"; "experimental"; "-b:a"; "320k"].


(** The first element of a list, and any other value itself. *)
Definition first_or_self (v : pyval) : pyval :=
  match v with
  | PyList (first :: _) => first
  | _ => v
  end.

(** The keys of a [dict], in order. *)
Definition keys (d : dict) : list string := map fst d.

(** ** Rounding over exact arithmetic *)


Lemma Qltb_lt (x y : Q) : Qltb x y = true <-> (x < y)%Q.
Proof.
  unfold Qltb; rewrite negb_true_iff.
  destruct (Qle_bool y x) eqn:E.
  - apply Qle_bool_iff in E. split; [discriminate | intros L; exfalso; lra].
  - split; [intros _ | reflexivity].
    apply Qnot_le_lt; intros L; apply Qle_bool_iff in L; congruence.
Qed.














Example scaling_round_1080 : scaling_round (F := Q) 1080%Q 16 0 = Ok 1088.
Proof. reflexivity. Qed.

Example scaling_round_1080_b64 :
  scaling_round (F := float) (Binary64.of_Z 1080) 16 0 = Ok 1088.
Proof. vm_compute. reflexivity. Qed.



(** ** The rounding primitive *)





(** C10: with [v = 50], [g = 16] and the bound 32 even the lower bracket 48 is
    above the bound, and 48 is returned; a bound of 0 switches the bound test
    off, so that 60 rounds to 64. *)
Theorem scaling_round_cap_exceeded :
  (lower_bracket (50 # 1) 16 = 48 /\
   scaling_round (50 # 1) 16 32 = Ok 48 /\
   scaling_round (F := float) (of_int 50) 16 32 = Ok 48 /\
   32 < 48)
  /\
  (scaling_round (60 # 1) 16 0 = Ok 64 /\
   scaling_round (F := float) (of_int 60) 16 0 = Ok 64 /\
   scaling_round (60 # 1) 16 1 = Ok 48 /\
   forall (v : Q) (g : Z),
     scaling_round v g 0 =
       (q <- fdiv v (of_int g) ;;
        vsc <- to_int q ;;
        if fltb (fabs (fsub v (of_int (vsc * g)))) (fabs (fsub v (of_int ((vsc + 1) * g))))
        then Ok (vsc * g) else Ok ((vsc + 1) * g))).
Proof.
  split.
  - repeat split; vm_compute; reflexivity.
  - split; [reflexivity | split; [vm_compute; reflexivity | split; [reflexivity |]]].
    intros v g; reflexivity.
Qed.

(** ** The fitted size over exact arithmetic *)

Lemma Qeq_bool_pos (x : Q) : (0 < x)%Q -> Qeq_bool x 0 = false.
Proof.
  intros Hx; destruct (Qeq_bool x 0) eqn:E; [|reflexivity].
  apply Qeq_bool_eq in E; exfalso; lra.
Qed.

Lemma inject_Z_pos (z : Z) : 0 < z -> (0 < inject_Z z)%Q.
Proof. intros Hz; unfold Qlt; simpl; lia. Qed.

Lemma Qdiv_pos (x y : Q) : (0 < x)%Q -> (0 < y)%Q -> (0 < x / y)%Q.
Proof. intros Hx Hy; apply Qlt_shift_div_l; [assumption | lra]. Qed.

Lemma cover_fit_Q (cw ch : Q) (vw vh : Z) :
  (0 < cw)%Q -> (0 < ch)%Q -> 0 < vh ->
  cover_fit cw ch vw vh =
    if Qle_bool ch cw && Qltb (inject_Z vw / inject_Z vh) (cw / ch)
    then Ok (inject_Z vw, (inject_Z vw / (cw / ch))%Q)
    else Ok ((inject_Z vh * (cw / ch))%Q, inject_Z vh).
Proof.
  intros Hcw Hch Hvh.
  unfold cover_fit, fdiv, of_int, fleb, fltb, fmul, Q_PyFloat, bind.
  rewrite (Qeq_bool_pos ch Hch).
  rewrite (Qeq_bool_pos (inject_Z vh) (inject_Z_pos vh Hvh)).
  rewrite (Qeq_bool_pos (cw / ch) (Qdiv_pos cw ch Hcw Hch)).
  reflexivity.
Qed.

Lemma Qdiv_mul (x y : Q) : (0 < y)%Q -> (x / y * y == x)%Q.
Proof. intros Hy; field; lra. Qed.

Lemma Qmult_pos (x y : Q) : (0 < x)%Q -> (0 < y)%Q -> (0 < x * y)%Q.
Proof. intros Hx Hy; nra. Qed.

Lemma Qdiv_lt_cross (cw ch vw vh : Q) :
  (0 < ch)%Q -> (0 < vh)%Q ->
  (vw / vh < cw / ch)%Q <-> (vw * ch < cw * vh)%Q.
Proof.
  intros Hch Hvh.
  pose proof (Qdiv_mul cw ch Hch) as Ha.
  pose proof (Qdiv_mul vw vh Hvh) as Hb.
  set (a := (cw / ch)%Q) in *; set (b := (vw / vh)%Q) in *.
  pose proof (Qmult_pos ch vh Hch Hvh) as Hp.
  split; intros L.
  - rewrite <- Ha, <- Hb.
    assert (0 < (a - b) * (ch * vh))%Q by (apply Qmult_pos; lra).
    lra.
  - rewrite <- Ha, <- Hb in L.
    destruct (Qlt_le_dec b a) as [Hlt | Hle]; [assumption | exfalso].
    assert (0 <= (b - a) * (ch * vh))%Q by (apply Qmult_le_0_compat; lra).
    lra.
Qed.

(** Width branch: the derived height is below the canvas height. *)
Lemma width_branch_height (cw ch vw vh : Q) :
  (0 < cw)%Q -> (0 < ch)%Q -> (0 < vw)%Q -> (0 < vh)%Q ->
  (vw / vh < cw / ch)%Q ->
  (0 < vw / (cw / ch) /\ vw / (cw / ch) <= vh)%Q.
Proof.
  intros Hcw Hch Hvw Hvh L.
  pose proof (Qdiv_pos cw ch Hcw Hch) as Ha.
  pose proof (Qdiv_mul vw vh Hvh) as Hb.
  set (a := (cw / ch)%Q) in *; set (b := (vw / vh)%Q) in *.
  split.
  - apply Qdiv_pos; assumption.
  - apply Qle_shift_div_r; [assumption |].
    rewrite <- Hb at 1.
    assert (0 <= (a - b) * vh)%Q by (apply Qmult_le_0_compat; lra).
    lra.
Qed.

(** Height branch: the derived width is within the canvas width exactly when
    the cover is not wider in proportion than the canvas. *)
Lemma height_branch_width (cw ch vw vh : Q) :
  (0 < cw)%Q -> (0 < ch)%Q -> (0 < vh)%Q ->
  (vh * (cw / ch) <= vw)%Q <-> (cw * vh <= vw * ch)%Q.
Proof.
  intros Hcw Hch Hvh.
  pose proof (Qdiv_mul cw ch Hch) as Ha.
  set (a := (cw / ch)%Q) in *.
  split; intros L.
  - rewrite <- Ha.
    assert (0 <= (vw - vh * a) * ch)%Q by (apply Qmult_le_0_compat; lra).
    lra.
  - rewrite <- Ha in L.
    destruct (Qlt_le_dec vw (vh * a)) as [Hlt | Hle]; [exfalso | assumption].
    assert (0 < (vh * a - vw) * ch)%Q by (apply Qmult_pos; lra).
    lra.
Qed.

Lemma Qle_bool_false (x y : Q) : Qle_bool x y = false <-> (y < x)%Q.
Proof.
  split; intros L.
  - apply Qnot_le_lt; intros Hle; apply Qle_bool_iff in Hle; congruence.
  - destruct (Qle_bool x y) eqn:E; [|reflexivity].
    apply Qle_bool_iff in E; exfalso; lra.
Qed.

Lemma Qltb_false (x y : Q) : Qltb x y = false <-> (y <= x)%Q.
Proof.
  unfold Qltb; rewrite negb_false_iff; apply Qle_bool_iff.
Qed.

(** The fitted size of a positive cover on a positive canvas: both sides are
    positive, the height always fits, and the width fits unless the cover is
    portrait and wider in proportion than the canvas. *)
Lemma cover_fit_spec (cw ch : Q) (vw vh : Z) :
  (0 < cw)%Q -> (0 < ch)%Q -> 0 < vw -> 0 < vh ->
  exists iw ih : Q,
    cover_fit cw ch vw vh = Ok (iw, ih) /\
    (0 < iw)%Q /\ (0 < ih)%Q /\ (ih <= inject_Z vh)%Q /\
    ((iw <= inject_Z vw)%Q <->
       ~ (cw < ch /\ inject_Z vw * ch < cw * inject_Z vh)%Q).
Proof.
  intros Hcw Hch Hvw Hvh.
  pose proof (inject_Z_pos vw Hvw) as Hqw.
  pose proof (inject_Z_pos vh Hvh) as Hqh.
  pose proof (Qdiv_pos cw ch Hcw Hch) as Ha.
  rewrite cover_fit_Q by assumption.
  destruct (Qle_bool ch cw) eqn:Ewide; simpl.
  - apply Qle_bool_iff in Ewide.
    destruct (Qltb (inject_Z vw / inject_Z vh) (cw / ch)) eqn:Easp.
    + apply Qltb_lt in Easp.
      destruct (width_branch_height cw ch (inject_Z vw) (inject_Z vh)) as [Hpos Hle];
        try assumption.
      eexists; eexists; split; [reflexivity |].
      split; [assumption | split; [assumption | split; [assumption |]]].
      split; [intros _ [Hport _]; lra | intros _; lra].
    + apply Qltb_false in Easp.
      eexists; eexists; split; [reflexivity |].
      split; [apply Qmult_pos; assumption | split; [assumption | split; [lra |]]].
      split; [intros _ [Hport _]; lra | intros _].
      apply height_branch_width; try assumption.
      destruct (Qlt_le_dec (inject_Z vw * ch) (cw * inject_Z vh)) as [Hlt | Hge];
        [| assumption].
      apply Qdiv_lt_cross in Hlt; try assumption. exfalso; lra.
  - apply Qle_bool_false in Ewide.
    eexists; eexists; split; [reflexivity |].
    split; [apply Qmult_pos; assumption | split; [assumption | split; [lra |]]].
    split.
    + intros Hfit [_ Hasp].
      apply height_branch_width in Hfit; try assumption. lra.
    + intros Hno. apply height_branch_width; try assumption.
      destruct (Qlt_le_dec (inject_Z vw * ch) (cw * inject_Z vh)) as [Hlt | Hge];
        [| assumption].
      exfalso; apply Hno; split; assumption.
Qed.

(** [cover_layout] once the fitted size is known. *)
Lemma cover_layout_Q (cw ch : Q) (vw vh : Z) (iw ih : Q) :
  cover_fit cw ch vw vh = Ok (iw, ih) ->
  cover_layout cw ch vw vh =
    if Qle_bool ih (inject_Z vh) then
      if Qle_bool iw (inject_Z vw) then
        image_width <- scaling_round iw 16 0 ;;
        image_height <- scaling_round ih 16 0 ;;
        Ok {| scaled_width := image_width;
              scaled_height := image_height;
              offset_x := Z.quot (vw - image_width) 2;
              offset_y := Z.quot (vh - image_height) 2 |}
      else Raise AssertionError
    else Raise AssertionError.
Proof.
  intros Hfit; unfold cover_layout; rewrite Hfit.
  unfold bind at 1, assert, fleb, of_int, Q_PyFloat.
  destruct (Qle_bool ih (inject_Z vh)); [| reflexivity].
  destruct (Qle_bool iw (inject_Z vw)); reflexivity.
Qed.


(** A portrait cover that is wider in proportion than the canvas stops at the
    width assertion. *)
Lemma cover_layout_assertion_fails (cw ch : Q) (vw vh : Z) :
  (0 < cw)%Q -> (0 < ch)%Q -> 0 < vw -> 0 < vh ->
  portrait_wider_than_canvas cw ch vw vh ->
  cover_layout cw ch vw vh = Raise AssertionError.
Proof.
  intros Hcw Hch Hvw Hvh Hbad.
  destruct (cover_fit_spec cw ch vw vh Hcw Hch Hvw Hvh)
    as (iw & ih & Hfit & _ & _ & Hh & Hw).
  rewrite (cover_layout_Q _ _ _ _ _ _ Hfit).
  apply Qle_bool_iff in Hh; rewrite Hh.
  destruct (Qle_bool iw (inject_Z vw)) eqn:E; [| reflexivity].
  apply Qle_bool_iff, Hw in E. contradiction.
Qed.


(** ** The geometry calculator *)

(** C1: the pre-rounding assertions are meant never to fail for positive
    sizes.  On a 600x800 cover and a 720x1280 canvas the fitted width is 960,
    above the canvas width 720, and the width assertion fails. *)
Theorem portrait_cover_assertion_error :
  (exists iw ih : Q,
     cover_fit (600 # 1) (800 # 1) 720 1280 = Ok (iw, ih) /\
     (iw == 960 # 1)%Q /\ (ih == 1280 # 1)%Q /\ (inject_Z 720 < iw)%Q) /\
  cover_layout (600 # 1) (800 # 1) 720 1280 = Raise AssertionError /\
  cover_layout (F := float) (of_int 600) (of_int 800) 720 1280 = Raise AssertionError /\
  (forall name : string,
     get_cover_filter_string (F := float)
       (fun _ => [{| width := 600; height := 800 |}]) name 720 1280
     = Raise AssertionError).
Proof.
  split; [| split; [| split]].
  - eexists; eexists; split; [reflexivity |].
    repeat split; reflexivity.
  - reflexivity.
  - vm_compute; reflexivity.
  - intros name; vm_compute; reflexivity.
Qed.








(** ** Strings *)

Lemma take_drop (n : nat) (s : string) : take n s ++ drop n s = s.
Proof.
  revert s; induction n as [| n IH]; intros [| c r]; simpl; try reflexivity.
  rewrite IH; reflexivity.
Qed.

Lemma take_app_length (pre suf : string) : take (String.length pre) (pre ++ suf) = pre.
Proof.
  induction pre as [| c r IH]; simpl.
  - destruct suf; reflexivity.
  - rewrite IH; reflexivity.
Qed.

Lemma drop_app_length (pre suf : string) : drop (String.length pre) (pre ++ suf) = suf.
Proof. induction pre as [| c r IH]; simpl; [reflexivity | exact IH]. Qed.

Lemma length_app (a b : string) :
  String.length (a ++ b) = (String.length a + String.length b)%nat.
Proof. induction a as [| c r IH]; simpl; [reflexivity | rewrite IH; reflexivity]. Qed.

Lemma app_assoc_string (a b c : string) : (a ++ b) ++ c = a ++ (b ++ c).
Proof. induction a as [| d r IH]; simpl; [reflexivity | rewrite IH; reflexivity]. Qed.

Lemma endswith_spec (s suffix : string) :
  endswith s suffix = true <-> exists pre : string, s = pre ++ suffix.
Proof.
  unfold endswith; split.
  - intros E; apply andb_true_iff in E as [_ E].
    apply String.eqb_eq in E.
    exists (take (String.length s - String.length suffix) s).
    rewrite <- E at 2; symmetry; apply take_drop.
  - intros [pre ->]; apply andb_true_iff; split.
    + apply Nat.leb_le; rewrite length_app; lia.
    + rewrite length_app.
      replace (String.length pre + String.length suffix - String.length suffix)%nat
        with (String.length pre) by lia.
      rewrite drop_app_length; apply String.eqb_refl.
Qed.

Lemma rfind_lower (c : ascii) (s : string) : -1 <= rfind c s.
Proof.
  induction s as [| d r IH]; simpl; [lia |].
  destruct (0 <=? rfind c r) eqn:E; [apply Z.leb_le in E; lia |].
  destruct (Ascii.eqb d c); lia.
Qed.

Lemma rfind_absent (c : ascii) (s : string) : rfind c s < 0 -> occurs c s = false.
Proof.
  induction s as [| d r IH]; simpl; [reflexivity |].
  destruct (0 <=? rfind c r) eqn:E.
  - apply Z.leb_le in E; lia.
  - apply Z.leb_gt in E.
    destruct (Ascii.eqb d c); [lia |].
    intros _; simpl; apply IH; assumption.
Qed.

(** A found index splits the string at the last occurrence. *)
Lemma rfind_found (c : ascii) (s : string) :
  0 <= rfind c s ->
  exists pre rest : string,
    s = pre ++ String c rest /\
    Z.of_nat (String.length pre) = rfind c s /\
    occurs c rest = false.
Proof.
  induction s as [| d r IH]; simpl; [lia |].
  destruct (0 <=? rfind c r) eqn:E.
  - apply Z.leb_le in E; intros _.
    destruct (IH E) as (pre & rest & -> & Hlen & Hrest).
    exists (String d pre), rest; simpl.
    repeat split; [lia | assumption].
  - apply Z.leb_gt in E.
    destruct (Ascii.eqb d c) eqn:Edc; [intros _ | lia].
    apply Ascii.eqb_eq in Edc; subst d.
    exists "", r; simpl.
    repeat split. apply rfind_absent; assumption.
Qed.

(** [basename] drops a directory part that is empty or ends in a slash, and
    what is left has no slash. *)
Lemma basename_spec (p : string) :
  exists dir : string,
    p = dir ++ basename p /\
    occurs "/" (basename p) = false /\
    (dir = "" \/ exists d : string, dir = d ++ "/").
Proof.
  unfold basename.
  destruct (Z_lt_le_dec (rfind "/" p) 0) as [Hno | Hyes].
  - pose proof (rfind_lower "/" p) as Hlow.
    replace (rfind "/" p + 1) with 0 by lia; simpl.
    exists ""; repeat split; [apply rfind_absent; assumption | left; reflexivity].
  - destruct (rfind_found "/" p Hyes) as (pre & rest & Hp & Hlen & Hrest).
    rewrite <- Hlen.
    replace (Z.to_nat (Z.of_nat (String.length pre) + 1)) with (S (String.length pre)) by lia.
    assert (Hdrop : drop (S (String.length pre)) p = rest).
    { rewrite Hp.
      change (pre ++ String "/" rest) with (pre ++ ("/" ++ rest)).
      rewrite <- app_assoc_string.
      replace (S (String.length pre)) with (String.length (pre ++ "/"))
        by (rewrite length_app; simpl; lia).
      apply drop_app_length. }
    rewrite Hdrop.
    exists (pre ++ "/"); repeat split.
    + rewrite app_assoc_string; exact Hp.
    + assumption.
    + right; exists pre; reflexivity.
Qed.

(** [splitext] cuts the path in two; the extension is empty or is a dot
    followed by characters that are not dots. *)
Lemma splitext_spec (p : string) :
  p = fst (splitext p) ++ snd (splitext p) /\
  (snd (splitext p) = "" \/
   exists e : string, snd (splitext p) = String "." e /\ occurs "." e = false).
Proof.
  unfold splitext.
  destruct (rfind "/" p <? rfind "." p) eqn:Elt; simpl.
  - apply Z.ltb_lt in Elt.
    pose proof (rfind_lower "/" p) as Hlow.
    destruct (has_non_dot _); simpl.
    + destruct (rfind_found "." p) as (pre & rest & Hp & Hlen & Hrest); [lia |].
      rewrite <- Hlen, Nat2Z.id.
      split; [symmetry; apply take_drop |].
      right; exists rest; split; [| assumption].
      rewrite Hp at 1; apply drop_app_length.
    + split; [| left; reflexivity].
      clear; induction p as [| c r IH]; simpl; [reflexivity | rewrite <- IH; reflexivity].
  - split; [| left; reflexivity].
    clear; induction p as [| c r IH]; simpl; [reflexivity | rewrite <- IH; reflexivity].
Qed.

(** ** Worked layouts *)

(** C6: a 3000x2000 cover on the 1280x720 canvas fails the test of line 80,
    is fitted to the height as 1080x720, and is rounded and centred as
    [scale=1088:720,pad=1280:720:96:0]. *)
Theorem layout_3000x2000_on_1280x720 :
  (Qle_bool (2000 # 1) (3000 # 1)
     && Qltb (inject_Z 1280 / inject_Z 720) ((3000 # 1) / (2000 # 1)) = false /\
   exists iw ih : Q,
     cover_fit (3000 # 1) (2000 # 1) 1280 720 = Ok (iw, ih) /\
     (iw == 1080 # 1)%Q /\ (ih == 720 # 1)%Q)
  /\
  (cover_layout (3000 # 1) (2000 # 1) 1280 720 =
     Ok {| scaled_width := 1088; scaled_height := 720; offset_x := 96; offset_y := 0 |} /\
   cover_layout (F := float) (of_int 3000) (of_int 2000) 1280 720 =
     Ok {| scaled_width := 1088; scaled_height := 720; offset_x := 96; offset_y := 0 |})
  /\
  (forall name : string,
     get_cover_filter_string (F := Q)
       (fun _ => [{| width := 3000; height := 2000 |}]) name 1280 720
     = Ok "scale=1088:720,pad=1280:720:96:0" /\
     get_cover_filter_string (F := float)
       (fun _ => [{| width := 3000; height := 2000 |}]) name 1280 720
     = Ok "scale=1088:720,pad=1280:720:96:0").
Proof.
  split; [split | split].
  - reflexivity.
  - eexists; eexists; split; [reflexivity | split; reflexivity].
  - split; [reflexivity | vm_compute; reflexivity].
  - intros name; split; vm_compute; reflexivity.
Qed.

(** C9: a 2000x10 cover on the 1280x720 canvas is fitted to the width as
    1280x6.4, and the height 6.4 rounds to 0: the scale stage is
    [scale=1280:0]. *)
Theorem layout_2000x10_zero_height :
  (exists iw ih : Q,
     cover_fit (2000 # 1) (10 # 1) 1280 720 = Ok (iw, ih) /\
     (iw == 1280 # 1)%Q /\ (ih == 64 # 10)%Q /\ (ih < 8 # 1)%Q /\
     scaling_round ih 16 0 = Ok 0)
  /\
  (cover_layout (2000 # 1) (10 # 1) 1280 720 =
     Ok {| scaled_width := 1280; scaled_height := 0; offset_x := 0; offset_y := 360 |} /\
   cover_layout (F := float) (of_int 2000) (of_int 10) 1280 720 =
     Ok {| scaled_width := 1280; scaled_height := 0; offset_x := 0; offset_y := 360 |})
  /\
  (forall name : string,
     get_cover_filter_string (F := Q)
       (fun _ => [{| width := 2000; height := 10 |}]) name 1280 720
     = Ok "scale=1280:0,pad=1280:720:0:360" /\
     get_cover_filter_string (F := float)
       (fun _ => [{| width := 2000; height := 10 |}]) name 1280 720
     = Ok "scale=1280:0,pad=1280:720:0:360").
Proof.
  split; [| split].
  - eexists; eexists; split; [reflexivity |].
    repeat split; reflexivity.
  - split; [reflexivity | vm_compute; reflexivity].
  - intros name; split; vm_compute; reflexivity.
Qed.

(** ** Range of the exact model *)

(** The offsets of Python 3 (truncation) and of Python 2 (floor) agree when
    the rounded picture is not larger than the canvas. *)
Lemma offset_floor_agrees (video image : Z) :
  image <= video -> Z.quot (video - image) 2 = (video - image) / 2.
Proof. intros Hle; apply Z.quot_div_nonneg; lia. Qed.

(** Beyond 2^53 binary64 no longer separates a value from its neighbours:
    at 2^60 the two distances are both computed as 0.0 and the exact value
    2^60 is rounded to 2^60 + 16, where exact arithmetic keeps 2^60. *)
Remark binary64_beyond_exact_range :
  scaling_round (F := Q) (of_int (2 ^ 60)) 16 0 = Ok (2 ^ 60) /\
  scaling_round (F := float) (of_int (2 ^ 60)) 16 0 = Ok (2 ^ 60 + 16).
Proof. split; vm_compute; reflexivity. Qed.

(** ** The ffmpeg command *)

Section ProcessFacts.

Context {F : Type} `{PyFloat F}.
Variable FFMPEG_PATH_env : option string.
Variable probe_file : string -> list stream_info.
Variable check_call : list string -> bool.

Lemma process_success (cover_path audio_path : string) (output_path : option string)
  (width height : Z) (p : string) :
  process FFMPEG_PATH_env probe_file check_call cover_path audio_path output_path
    width height = Ok p ->
  p = resolve_output_path audio_path output_path /\
  exists args : list string,
    ffmpeg_command FFMPEG_PATH_env probe_file cover_path audio_path p width height
      = Ok args /\
    check_call args = true.
Proof.
  unfold process; intros Hrun.
  destruct (ffmpeg_command _ _ _ _ _ _ _) as [args | e] eqn:Hargs; simpl in Hrun;
    [| discriminate].
  destruct (check_call args) eqn:Hcall; [| discriminate].
  injection Hrun as <-.
  split; [reflexivity | exists args; split; assumption].
Qed.

Lemma ffmpeg_command_shape (cover_path audio_path output_path : string)
  (width height : Z) (args : list string) :
  ffmpeg_command FFMPEG_PATH_env probe_file cover_path audio_path output_path
    width height = Ok args ->
  exists video_args : list string,
    List.length video_args = 19%nat /\
    args = (video_args
              ++ (if endswith audio_path ".mp3" then stream_copy else transcode_aac_320k)
              ++ ["-shortest"; output_path])%list.
Proof.
  unfold ffmpeg_command; intros Hargs.
  destruct (get_cover_filter_string _ _ _ _) as [filter | e]; simpl in Hargs;
    [| discriminate].
  injection Hargs as <-.
  exists [ FFMPEG_PATH FFMPEG_PATH_env ++ "ffmpeg"; "-loop"; "1"; "-i"; cover_path;
           "-i"; audio_path; "-r:v"; "10"; "-s:v"; fmt_d width ++ "x" ++ fmt_d height;
           "-c:v"; "libx264"; "-crf:v"; "22"; "-filter:v"; filter;
           "-pix_fmt"; "yuv420p" ].
  split; [reflexivity |].
  destruct (endswith audio_path ".mp3"); reflexivity.
Qed.

End ProcessFacts.

(** C7: the audio options of the command are decided by the suffix of the
    audio path alone: [-c:a copy] when the path ends in [.mp3], and
    [-c:a aac -strict experimental -b:a 320k] for every other path. *)
Theorem audio_codec_by_suffix {F : Type} `{PyFloat F}
  (FFMPEG_PATH_env : option string) (probe_file : string -> list stream_info)
  (check_call : list string -> bool)
  (cover_path audio_path : string) (output_path : option string)
  (width height : Z) (p : string) :
  process FFMPEG_PATH_env probe_file check_call cover_path audio_path output_path
    width height = Ok p ->
  exists (args video_args audio_args : list string),
    ffmpeg_command FFMPEG_PATH_env probe_file cover_path audio_path p width height
      = Ok args /\
    check_call args = true /\
    List.length video_args = 19%nat /\
    args = (video_args ++ audio_args ++ ["-shortest"; p])%list /\
    ((exists stem : string, audio_path = stem ++ ".mp3") -> audio_args = stream_copy) /\
    (~ (exists stem : string, audio_path = stem ++ ".mp3") ->
       audio_args = transcode_aac_320k).
Proof.
  intros Hrun.
  destruct (process_success _ _ _ _ _ _ _ _ _ Hrun) as (_ & args & Hargs & Hcall).
  destruct (ffmpeg_command_shape _ _ _ _ _ _ _ _ Hargs) as (video_args & Hlen & Hshape).
  exists args, video_args,
    (if endswith audio_path ".mp3" then stream_copy else transcode_aac_320k).
  repeat split; try assumption.
  - intros Hsuffix; apply endswith_spec in Hsuffix; rewrite Hsuffix; reflexivity.
  - intros Hother.
    destruct (endswith audio_path ".mp3") eqn:E; [| reflexivity].
    apply endswith_spec in E; contradiction.
Qed.

Lemma audio_codec_by_suffix_witness :
  exists (args video_args audio_args : list string),
    ffmpeg_command (F := Q) None (fun _ => [{| width := 3000; height := 2000 |}])
      "cover.jpg" "song.wav" "song.mp4" 1280 720 = Ok args /\
    (fun _ : list string => true) args = true /\
    List.length video_args = 19%nat /\
    args = (video_args ++ audio_args ++ ["-shortest"; "song.mp4"])%list /\
    ((exists stem : string, "song.wav" = stem ++ ".mp3") -> audio_args = stream_copy) /\
    (~ (exists stem : string, "song.wav" = stem ++ ".mp3") ->
       audio_args = transcode_aac_320k).
Proof.
  apply (audio_codec_by_suffix (F := Q) None
           (fun _ => [{| width := 3000; height := 2000 |}]) (fun _ => true)
           "cover.jpg" "song.wav" None 1280 720 "song.mp4").
  reflexivity.
Defined.

(** C8: without an output path, a successful [process] returns the audio
    path with its directory part and its extension removed, followed by
    [.mp4]. *)
Theorem default_output_path {F : Type} `{PyFloat F}
  (FFMPEG_PATH_env : option string) (probe_file : string -> list stream_info)
  (check_call : list string -> bool)
  (cover_path audio_path : string) (width height : Z) (p : string) :
  process FFMPEG_PATH_env probe_file check_call cover_path audio_path None
    width height = Ok p ->
  p = fst (splitext (basename audio_path)) ++ ".mp4" /\
  exists dir stem ext : string,
    audio_path = dir ++ stem ++ ext /\
    p = stem ++ ".mp4" /\
    (dir = "" \/ exists d : string, dir = d ++ "/") /\
    occurs "/" (stem ++ ext) = false /\
    (ext = "" \/ exists e : string, ext = String "." e /\ occurs "." e = false).
Proof.
  intros Hrun.
  destruct (process_success _ _ _ _ _ _ _ _ _ Hrun) as (Hp & _).
  simpl in Hp; split; [exact Hp |].
  destruct (basename_spec audio_path) as (dir & Hdir & Hslash & Hsep).
  destruct (splitext_spec (basename audio_path)) as (Hcut & Hext).
  exists dir, (fst (splitext (basename audio_path))),
    (snd (splitext (basename audio_path))).
  rewrite <- Hcut.
  repeat split; assumption.
Qed.

Lemma default_output_path_witness :
  "song.mp4" = fst (splitext (basename "song.wav")) ++ ".mp4" /\
  exists dir stem ext : string,
    "song.wav" = dir ++ stem ++ ext /\
    "song.mp4" = stem ++ ".mp4" /\
    (dir = "" \/ exists d : string, dir = d ++ "/") /\
    occurs "/" (stem ++ ext) = false /\
    (ext = "" \/ exists e : string, ext = String "." e /\ occurs "." e = false).
Proof.
  apply (default_output_path (F := Q) None
           (fun _ => [{| width := 3000; height := 2000 |}]) (fun _ => true)
           "cover.jpg" "song.wav" 1280 720 "song.mp4").
  reflexivity.
Defined.

(** ** More on the rounding primitive *)





















(** ** More on the fitted size *)


















(** ** More on paths *)

Lemma occurs_app (c : ascii) (a b : string) :
  occurs c (a ++ b) = occurs c a || occurs c b.
Proof.
  induction a as [| d r IH]; simpl; [reflexivity |].
  rewrite IH, orb_assoc; reflexivity.
Qed.

Lemma rfind_none (c : ascii) (s : string) : occurs c s = false -> rfind c s = -1.
Proof.
  induction s as [| d r IH]; simpl; [reflexivity |].
  intros Hno; apply orb_false_iff in Hno as [Hd Hr].
  rewrite (IH Hr), Hd; reflexivity.
Qed.

Lemma rfind_app_last (c : ascii) (pre rest : string) :
  occurs c rest = false ->
  rfind c (pre ++ String c rest) = Z.of_nat (String.length pre).
Proof.
  intros Hrest; induction pre as [| d r IH]; simpl.
  - rewrite (rfind_none c rest Hrest); simpl.
    rewrite Ascii.eqb_refl; reflexivity.
  - rewrite IH.
    replace (0 <=? Z.of_nat (String.length r)) with true
      by (symmetry; apply Z.leb_le; lia).
    lia.
Qed.

Lemma basename_no_sep (name : string) : occurs "/" name = false -> basename name = name.
Proof.
  intros Hno; unfold basename; rewrite (rfind_none _ _ Hno); reflexivity.
Qed.

Lemma basename_after_sep (d name : string) :
  occurs "/" name = false -> basename (d ++ String "/" name) = name.
Proof.
  intros Hno; unfold basename.
  rewrite (rfind_app_last "/" d name Hno).
  replace (Z.to_nat (Z.of_nat (String.length d) + 1)) with (S (String.length d)) by lia.
  change (d ++ String "/" name) with (d ++ ("/" ++ name)).
  rewrite <- app_assoc_string.
  replace (S (String.length d)) with (String.length (d ++ "/"))
    by (rewrite length_app; simpl; lia).
  apply drop_app_length.
Qed.

Lemma splitext_name (stem e : string) :
  occurs "/" stem = false -> has_non_dot stem = true ->
  occurs "." e = false -> occurs "/" e = false ->
  splitext (stem ++ String "." e) = (stem, String "." e).
Proof.
  intros Hstem Hreal Hdot Hsep; unfold splitext.
  assert (Hnosep : occurs "/" (stem ++ String "." e) = false).
  { rewrite occurs_app, Hstem; simpl. exact Hsep. }
  rewrite (rfind_none _ _ Hnosep), (rfind_app_last "." stem e Hdot).
  replace (-1 <? Z.of_nat (String.length stem)) with true
    by (symmetry; apply Z.ltb_lt; lia).
  replace (Z.to_nat (Z.of_nat (String.length stem) - (-1 + 1))) with (String.length stem) by lia.
  rewrite Nat2Z.id; simpl drop at 1.
  change (Z.to_nat (-1 + 1)) with 0%nat; simpl drop at 1.
  rewrite take_app_length, Hreal, drop_app_length. reflexivity.
Qed.

Lemma all_dots_last (s : string) :
  has_non_dot s = false -> s <> "" ->
  exists s' : string, s = s' ++ "." /\ has_non_dot s' = false.
Proof.
  induction s as [| c r IH]; [intros _ Hne; contradiction |].
  simpl; intros Hdots _.
  apply orb_false_iff in Hdots as [Hc Hr].
  apply negb_false_iff, Ascii.eqb_eq in Hc; subst c.
  destruct r as [| c' r'].
  - exists ""; split; reflexivity.
  - destruct (IH Hr) as (s' & Hs & Hs'); [discriminate |].
    exists (String "." s'); split.
    + simpl; rewrite <- Hs; reflexivity.
    + simpl; exact Hs'.
Qed.

Lemma all_dots_occurs (s : string) : occurs "." s = false -> has_non_dot s = false -> s = "".
Proof.
  destruct s as [| c r]; [reflexivity |]; simpl.
  intros Hno Hdots.
  apply orb_false_iff in Hno as [Hc _]; apply orb_false_iff in Hdots as [Hc' _].
  rewrite Hc in Hc'; discriminate.
Qed.

Lemma splitext_dotfile (dots rest : string) :
  has_non_dot dots = false -> occurs "." rest = false ->
  occurs "/" rest = false ->
  splitext (dots ++ rest) = (dots ++ rest, "").
Proof.
  intros Hdots Hrest Hsep; unfold splitext.
  assert (Hnosep : occurs "/" (dots ++ rest) = false).
  { rewrite occurs_app, Hsep, orb_false_r.
    clear - Hdots; induction dots as [| c r IH]; simpl in *; [reflexivity |].
    apply orb_false_iff in Hdots as [Hc Hr].
    apply negb_false_iff, Ascii.eqb_eq in Hc; subst c. simpl. apply IH; assumption. }
  rewrite (rfind_none _ _ Hnosep).
  destruct dots as [| c r] eqn:Ed.
  - simpl; rewrite (rfind_none _ _ Hrest); reflexivity.
  - destruct (all_dots_last (String c r) Hdots) as (s' & Hs & Hs'); [discriminate |].
    rewrite Hs.
    replace ((s' ++ ".") ++ rest) with (s' ++ String "." rest)
      by (rewrite app_assoc_string; reflexivity).
    rewrite (rfind_app_last "." s' rest Hrest).
    replace (-1 <? Z.of_nat (String.length s')) with true
      by (symmetry; apply Z.ltb_lt; lia).
    replace (Z.to_nat (Z.of_nat (String.length s') - (-1 + 1))) with (String.length s') by lia.
    change (Z.to_nat (-1 + 1)) with 0%nat; simpl drop at 1.
    rewrite take_app_length, Hs'. reflexivity.
Qed.

Lemma basename_of_dir (dir name : string) :
  dir = "" \/ (exists d : string, dir = d ++ "/") ->
  occurs "/" name = false ->
  basename (dir ++ name) = name.
Proof.
  intros [-> | [d ->]] Hno.
  - apply basename_no_sep; assumption.
  - rewrite app_assoc_string. apply basename_after_sep; assumption.
Qed.

(** X15: for an audio path made of a directory part, a name without slash that
    has a character other than a dot, and an extension without dot or slash,
    the derived output path is the name followed by [.mp4]. *)
Theorem default_output_of_file_name (dir stem e : string) :
  dir = "" \/ (exists d : string, dir = d ++ "/") ->
  occurs "/" stem = false -> has_non_dot stem = true ->
  occurs "." e = false -> occurs "/" e = false ->
  resolve_output_path (dir ++ stem ++ String "." e) None = stem ++ ".mp4".
Proof.
  intros Hdir Hstem Hreal Hdot Hsep; unfold resolve_output_path.
  rewrite basename_of_dir; [| assumption |].
  - rewrite splitext_name by assumption. reflexivity.
  - rewrite occurs_app, Hstem; simpl. exact Hsep.
Qed.

Lemma default_output_of_file_name_witness :
  resolve_output_path ("music/" ++ "song.tar" ++ String "." "gz") None
  = "song.tar" ++ ".mp4".
Proof.
  apply (default_output_of_file_name "music/" "song.tar" "gz").
  - right; exists "music"; reflexivity.
  - reflexivity.
  - reflexivity.
  - reflexivity.
  - reflexivity.
Defined.

(** X16: a file name whose only dots are leading ones loses nothing: the
    derived output path is the whole name followed by [.mp4]. *)
Theorem default_output_of_dot_file (dir dots rest : string) :
  dir = "" \/ (exists d : string, dir = d ++ "/") ->
  has_non_dot dots = false -> occurs "." rest = false -> occurs "/" rest = false ->
  resolve_output_path (dir ++ dots ++ rest) None = dots ++ rest ++ ".mp4".
Proof.
  intros Hdir Hdots Hrest Hsep; unfold resolve_output_path.
  assert (Hnosep : occurs "/" (dots ++ rest) = false).
  { rewrite occurs_app, Hsep, orb_false_r.
    clear - Hdots; induction dots as [| c r IH]; simpl in *; [reflexivity |].
    apply orb_false_iff in Hdots as [Hc Hr].
    apply negb_false_iff, Ascii.eqb_eq in Hc; subst c. simpl. apply IH; assumption. }
  rewrite basename_of_dir by assumption.
  rewrite splitext_dotfile by assumption; simpl.
  apply app_assoc_string.
Qed.

Lemma default_output_of_dot_file_witness :
  resolve_output_path ("" ++ "." ++ "bashrc") None = "." ++ "bashrc" ++ ".mp4".
Proof.
  apply (default_output_of_dot_file "" "." "bashrc").
  - left; reflexivity.
  - reflexivity.
  - reflexivity.
  - reflexivity.
Defined.

(** X17: the derived output path never contains a slash, so the video is
    written to the working directory; an empty output path is treated as
    no output path. *)
Theorem default_output_in_working_directory (audio_path : string) :
  occurs "/" (resolve_output_path audio_path None) = false /\
  resolve_output_path audio_path (Some "") = resolve_output_path audio_path None.
Proof.
  split; [| reflexivity].
  unfold resolve_output_path.
  destruct (basename_spec audio_path) as (dir & _ & Hslash & _).
  destruct (splitext_spec (basename audio_path)) as (Hcut & _).
  rewrite Hcut, occurs_app in Hslash.
  apply orb_false_iff in Hslash as [Hroot _].
  rewrite occurs_app, Hroot; reflexivity.
Qed.

(** ** More on process *)

Section ProcessMore.

Context {F : Type} `{PyFloat F}.
Variable FFMPEG_PATH_env : option string.
Variable probe_file : string -> list stream_info.
Variable check_call : list string -> bool.

Lemma process_unfold (cover_path audio_path : string) (output_path : option string)
  (width height : Z) :
  process FFMPEG_PATH_env probe_file check_call cover_path audio_path output_path
    width height =
  (args <- ffmpeg_command FFMPEG_PATH_env probe_file cover_path audio_path
             (resolve_output_path audio_path output_path) width height ;;
   if check_call args then Ok (resolve_output_path audio_path output_path)
   else Raise CalledProcessError).
Proof. reflexivity. Qed.

Lemma ffmpeg_command_fails (cover_path audio_path output_path : string)
  (width height : Z) (e : exn) :
  get_cover_filter_string probe_file cover_path width height = Raise e ->
  ffmpeg_command FFMPEG_PATH_env probe_file cover_path audio_path output_path
    width height = Raise e.
Proof. unfold ffmpeg_command; intros ->; reflexivity. Qed.

Lemma ffmpeg_command_ok (cover_path audio_path output_path : string)
  (width height : Z) (filter : string) :
  get_cover_filter_string probe_file cover_path width height = Ok filter ->
  exists args : list string,
    ffmpeg_command FFMPEG_PATH_env probe_file cover_path audio_path output_path
      width height = Ok args /\
    List.hd "" args = FFMPEG_PATH FFMPEG_PATH_env ++ "ffmpeg" /\
    List.nth 4 args "" = cover_path /\
    List.nth 6 args "" = audio_path /\
    List.nth 10 args "" = fmt_d width ++ "x" ++ fmt_d height /\
    List.nth 16 args "" = filter /\
    List.last args "" = output_path /\
    List.length args = (if endswith audio_path ".mp3" then 23 else 27)%nat.
Proof.
  unfold ffmpeg_command; intros ->; simpl.
  destruct (endswith audio_path ".mp3"); simpl; eexists; repeat split.
Qed.

End ProcessMore.

(** X18: an explicit, non-empty output path is returned as it is. *)
Theorem explicit_output_path_returned {F : Type} `{PyFloat F}
  (FFMPEG_PATH_env : option string) (probe_file : string -> list stream_info)
  (check_call : list string -> bool)
  (cover_path audio_path : string) (c : ascii) (path : string)
  (width height : Z) (p : string) :
  process FFMPEG_PATH_env probe_file check_call cover_path audio_path
    (Some (String c path)) width height = Ok p ->
  p = String c path.
Proof.
  intros Hrun.
  destruct (process_success _ _ _ _ _ _ _ _ _ Hrun) as (Hp & _). exact Hp.
Qed.

Lemma explicit_output_path_returned_witness :
  "out/video.mp4" = String "o" "ut/video.mp4".
Proof.
  apply (explicit_output_path_returned (F := Q) None
           (fun _ => [{| width := 3000; height := 2000 |}]) (fun _ => true)
           "cover.jpg" "song.wav" "o" "ut/video.mp4" 1280 720 "out/video.mp4").
  reflexivity.
Defined.

(** X19: a failure of the probe or of the geometry is the failure of [process],
    whatever ffmpeg would have done. *)
Theorem process_fails_before_ffmpeg {F : Type} `{PyFloat F}
  (FFMPEG_PATH_env : option string) (probe_file : string -> list stream_info)
  (check_call : list string -> bool)
  (cover_path audio_path : string) (output_path : option string)
  (width height : Z) (e : exn) :
  get_cover_filter_string probe_file cover_path width height = Raise e ->
  process FFMPEG_PATH_env probe_file check_call cover_path audio_path output_path
    width height = Raise e.
Proof.
  intros Hfail; rewrite process_unfold.
  rewrite (ffmpeg_command_fails _ _ _ _ _ _ _ _ Hfail). reflexivity.
Qed.

Lemma process_fails_before_ffmpeg_witness :
  process (F := Q) None (fun _ => []) (fun _ => true)
    "cover.jpg" "song.wav" None 1280 720 = Raise IndexError.
Proof.
  apply (process_fails_before_ffmpeg (F := Q) None (fun _ => []) (fun _ => true)
           "cover.jpg" "song.wav" None 1280 720 IndexError).
  reflexivity.
Defined.

(** X20: once the filter string is there, [process] returns the output path when
    ffmpeg succeeds on the argument list and raises CalledProcessError when
    it does not. *)
Theorem process_follows_ffmpeg {F : Type} `{PyFloat F}
  (FFMPEG_PATH_env : option string) (probe_file : string -> list stream_info)
  (check_call : list string -> bool)
  (cover_path audio_path : string) (output_path : option string)
  (width height : Z) (filter : string) :
  get_cover_filter_string probe_file cover_path width height = Ok filter ->
  exists args : list string,
    ffmpeg_command FFMPEG_PATH_env probe_file cover_path audio_path
      (resolve_output_path audio_path output_path) width height = Ok args /\
    (check_call args = true ->
       process FFMPEG_PATH_env probe_file check_call cover_path audio_path
         output_path width height = Ok (resolve_output_path audio_path output_path)) /\
    (check_call args = false ->
       process FFMPEG_PATH_env probe_file check_call cover_path audio_path
         output_path width height = Raise CalledProcessError).
Proof.
  intros Hfilter.
  destruct (ffmpeg_command_ok FFMPEG_PATH_env probe_file cover_path audio_path
              (resolve_output_path audio_path output_path) width height filter Hfilter)
    as (args & Hargs & _).
  exists args; split; [exact Hargs |].
  rewrite process_unfold, Hargs; simpl.
  split; intros ->; reflexivity.
Qed.

Lemma process_follows_ffmpeg_witness :
  exists args : list string,
    ffmpeg_command (F := Q) None (fun _ => [{| width := 3000; height := 2000 |}])
      "cover.jpg" "song.wav" (resolve_output_path "song.wav" None) 1280 720 = Ok args /\
    ((fun _ : list string => false) args = true ->
       process (F := Q) None (fun _ => [{| width := 3000; height := 2000 |}])
         (fun _ => false) "cover.jpg" "song.wav" None 1280 720
       = Ok (resolve_output_path "song.wav" None)) /\
    ((fun _ : list string => false) args = false ->
       process (F := Q) None (fun _ => [{| width := 3000; height := 2000 |}])
         (fun _ => false) "cover.jpg" "song.wav" None 1280 720
       = Raise CalledProcessError).
Proof.
  apply (process_follows_ffmpeg (F := Q) None
           (fun _ => [{| width := 3000; height := 2000 |}]) (fun _ => false)
           "cover.jpg" "song.wav" None 1280 720 "scale=1088:720,pad=1280:720:96:0").
  reflexivity.
Defined.

(** X21: in every argument list that is built the first argument is the
    ffmpeg binary under the configured prefix, the cover and the audio path
    are arguments 4 and 6, the canvas is argument 10 as [WxH], argument 16 is
    the filter string of the cover, the output path comes last, and there
    are 23 arguments for an [.mp3] path and 27 for any other. *)
Theorem ffmpeg_command_layout {F : Type} `{PyFloat F}
  (FFMPEG_PATH_env : option string) (probe_file : string -> list stream_info)
  (cover_path audio_path output_path : string)
  (width height : Z) (args : list string) :
  ffmpeg_command FFMPEG_PATH_env probe_file cover_path audio_path output_path
    width height = Ok args ->
  List.hd "" args = FFMPEG_PATH FFMPEG_PATH_env ++ "ffmpeg" /\
  List.nth 4 args "" = cover_path /\
  List.nth 6 args "" = audio_path /\
  List.nth 10 args "" = fmt_d width ++ "x" ++ fmt_d height /\
  get_cover_filter_string probe_file cover_path width height = Ok (List.nth 16 args "") /\
  List.last args "" = output_path /\
  List.length args = (if endswith audio_path ".mp3" then 23 else 27)%nat.
Proof.
  intros Hargs.
  destruct (get_cover_filter_string probe_file cover_path width height)
    as [filter | e] eqn:Hfilter.
  - destruct (ffmpeg_command_ok FFMPEG_PATH_env probe_file cover_path audio_path
                output_path width height filter Hfilter)
      as (args' & Hargs' & H0 & H4 & H6 & H10 & H16 & Hlast & Hlen).
    rewrite Hargs in Hargs'; injection Hargs' as <-.
    rewrite H16. repeat split; assumption.
  - rewrite (ffmpeg_command_fails _ _ _ _ _ _ _ _ Hfilter) in Hargs. discriminate.
Qed.

Lemma ffmpeg_command_layout_witness :
  let args :=
    [ "ffmpeg"; "-loop"; "1"; "-i"; "cover.jpg"; "-i"; "song.wav"; "-r:v"; "10";
      "-s:v"; "1280x720"; "-c:v"; "libx264"; "-crf:v"; "22";
      "-filter:v"; "scale=1088:720,pad=1280:720:96:0"; "-pix_fmt"; "yuv420p";
      "-c:a"; "aac"; "-strict"; "experimental"; "-b:a"; "320k";
      "-shortest"; "song.mp4" ] in
  List.hd "" args = FFMPEG_PATH None ++ "ffmpeg" /\
  List.nth 4 args "" = "cover.jpg" /\
  List.nth 6 args "" = "song.wav" /\
  List.nth 10 args "" = fmt_d 1280 ++ "x" ++ fmt_d 720 /\
  get_cover_filter_string (F := Q) (fun _ => [{| width := 3000; height := 2000 |}])
    "cover.jpg" 1280 720 = Ok (List.nth 16 args "") /\
  List.last args "" = "song.mp4" /\
  List.length args = (if endswith "song.wav" ".mp3" then 23 else 27)%nat.
Proof.
  apply (ffmpeg_command_layout (F := Q) None
           (fun _ => [{| width := 3000; height := 2000 |}])
           "cover.jpg" "song.wav" "song.mp4" 1280 720).
  reflexivity.
Defined.

(** ** unwrap_args: failure and result *)

Lemma dict_set_fresh (d : dict) (key : string) (value : pyval) :
  ~ In key (keys d) -> dict_set d key value = (d ++ [(key, value)])%list.
Proof.
  induction d as [| [k v] rest IH]; simpl; intros Hfresh; [reflexivity |].
  destruct (String.eqb k key) eqn:E.
  - apply String.eqb_eq in E; exfalso; apply Hfresh; left; assumption.
  - rewrite IH; [reflexivity |]. intros Hin; apply Hfresh; right; assumption.
Qed.

Lemma unwrap_items_fails (items : list (string * pyval)) (acc : dict) :
  (exists key : string, In (key, PyList []) items) ->
  unwrap_items items acc = Raise IndexError.
Proof.
  revert acc; induction items as [| [k v] rest IH]; intros acc [key Hin];
    [contradiction |].
  simpl. destruct Hin as [Heq | Hin].
  - injection Heq as -> ->; reflexivity.
  - destruct v as [| s | n | [| first others]]; simpl; try reflexivity;
      apply IH; exists key; assumption.
Qed.

Lemma unwrap_items_succeeds (items : list (string * pyval)) (acc : dict) :
  ~ (exists key : string, In (key, PyList []) items) ->
  NoDup (keys acc ++ keys items) ->
  unwrap_items items acc
  = Ok (acc ++ map (fun kv => (fst kv, first_or_self (snd kv))) items)%list.
Proof.
  revert acc; induction items as [| [k v] rest IH]; intros acc Hnone Hdup; simpl.
  - rewrite app_nil_r; reflexivity.
  - assert (Hfresh : ~ In k (keys acc)).
    { simpl in Hdup. apply NoDup_remove_2 in Hdup.
      intros Hin; apply Hdup; apply in_or_app; left; assumption. }
    assert (Hrest : ~ (exists key : string, In (key, PyList []) rest)).
    { intros [key Hin]; apply Hnone; exists key; right; assumption. }
    assert (Hstep : forall v', unwrap_items rest (dict_set acc k v')
                    = Ok (acc ++ (k, v') :: map (fun kv => (fst kv, first_or_self (snd kv))) rest)%list).
    { intros v'. rewrite dict_set_fresh by assumption.
      rewrite IH; [| assumption |].
      - rewrite <- app_assoc; reflexivity.
      - unfold keys in *; rewrite map_app; simpl.
        rewrite <- app_assoc; simpl. exact Hdup. }
    destruct v as [| s | n | [| first others]]; simpl; try apply Hstep.
    exfalso; apply Hnone; exists k; left; reflexivity.
Qed.

Lemma dict_get_map (d : dict) (key : string) :
  dict_get (map (fun kv => (fst kv, first_or_self (snd kv))) d) key
  = option_map first_or_self (dict_get d key).
Proof.
  induction d as [| [k v] rest IH]; simpl; [reflexivity |].
  destruct (String.eqb k key); [reflexivity | exact IH].
Qed.

(** X22: [unwrap_args] fails, with IndexError, exactly on a namespace that holds
    an empty list. *)
Theorem unwrap_args_fails_iff (args_ns : dict) :
  NoDup (keys args_ns) ->
  (forall e : exn, unwrap_args args_ns = Raise e -> e = IndexError) /\
  (unwrap_args args_ns = Raise IndexError <->
   exists key : string, In (key, PyList []) args_ns).
Proof.
  intros Hdup.
  assert (Hiff : forall e : exn, unwrap_args args_ns = Raise e ->
                 exists key : string, In (key, PyList []) args_ns).
  { intros e Hfail.
    assert (Hdec : (exists key : string, In (key, PyList []) args_ns)
                   \/ ~ (exists key : string, In (key, PyList []) args_ns)).
    { clear. induction args_ns as [| [k v] rest IH].
      - right; intros [key []].
      - destruct IH as [[key Hin] | Hno].
        + left; exists key; right; assumption.
        + destruct v as [| s | n | [| first others]];
            try (right; intros [key [Heq | Hin]];
                 [discriminate | apply Hno; exists key; assumption]).
          left; exists k; left; reflexivity. }
    destruct Hdec as [Hyes | Hno]; [assumption |].
    unfold unwrap_args in Hfail.
    rewrite unwrap_items_succeeds in Hfail; [discriminate | assumption | exact Hdup]. }
  split.
  - intros e Hfail.
    pose proof (unwrap_items_fails args_ns [] (Hiff e Hfail)) as Hidx.
    unfold unwrap_args in Hfail; rewrite Hidx in Hfail.
    injection Hfail as <-; reflexivity.
  - split; [apply Hiff | apply unwrap_items_fails].
Qed.

Lemma unwrap_args_fails_iff_witness :
  (forall e : exn,
     unwrap_args [("cover_path", PyList []); ("width", PyInt 1280)] = Raise e ->
     e = IndexError) /\
  (unwrap_args [("cover_path", PyList []); ("width", PyInt 1280)] = Raise IndexError <->
   exists key : string,
     In (key, PyList []) [("cover_path", PyList []); ("width", PyInt 1280)]).
Proof.
  apply (unwrap_args_fails_iff [("cover_path", PyList []); ("width", PyInt 1280)]).
  repeat constructor; simpl; intuition discriminate.
Defined.

(** X23: otherwise the keys stay, in their order, and each list is replaced by
    its first element. *)
Theorem unwrap_args_first_elements (args_ns : dict) :
  NoDup (keys args_ns) ->
  ~ (exists key : string, In (key, PyList []) args_ns) ->
  exists args_dict : dict,
    unwrap_args args_ns = Ok args_dict /\
    keys args_dict = keys args_ns /\
    forall key : string,
      dict_get args_dict key = option_map first_or_self (dict_get args_ns key).
Proof.
  intros Hdup Hnone; unfold unwrap_args.
  rewrite unwrap_items_succeeds; [| assumption | exact Hdup].
  eexists; split; [reflexivity |]; simpl.
  split.
  - unfold keys; rewrite map_map; reflexivity.
  - intros key; apply dict_get_map.
Qed.

Lemma unwrap_args_first_elements_witness :
  exists args_dict : dict,
    unwrap_args
      [ ("cover_path", PyList [PyStr "cover.jpg"]);
      ("audio_path", PyList [PyStr "song.wav"]);
      ("output_path", PyNone);
      ("width", PyInt 1280);
      ("height", PyInt 720) ] = Ok args_dict /\
    keys args_dict = ["cover_path"; "audio_path"; "output_path"; "width"; "height"] /\
    forall key : string,
      dict_get args_dict key
      = option_map first_or_self
          (dict_get
             [ ("cover_path", PyList [PyStr "cover.jpg"]);
             ("audio_path", PyList [PyStr "song.wav"]);
             ("output_path", PyNone);
             ("width", PyInt 1280);
             ("height", PyInt 720) ] key).
Proof.
  apply (unwrap_args_first_elements
           [ ("cover_path", PyList [PyStr "cover.jpg"]);
           ("audio_path", PyList [PyStr "song.wav"]);
           ("output_path", PyNone);
           ("width", PyInt 1280);
           ("height", PyInt 720) ]).
  - repeat constructor; simpl; intuition discriminate.
  - intros [key Hin]; simpl in Hin; intuition discriminate.
Defined.
